(** * App.tsx: the event relay between the Retell client SDK and the
    chat transcript

    A shallow embedding of the [App] component of [src/App.tsx]: its React
    state, the six SDK event handlers registered in the mount effect, and the
    three UI callbacks [startCall], [stopCall] and [sendMessage].  The SDK
    client is opaque; what the component does to it is recorded as the list of
    method calls it receives. *)

From Stdlib Require Import NArith Ascii String.
From stdpp Require Import base numbers option list.

(** ** JavaScript strings *)

(** A JavaScript string is a sequence of UTF-16 code units. *)
Definition jsstring : Type := list N.

(** An ASCII literal of the source, as code units. *)
Definition lit (s : string) : jsstring :=
  map N_of_ascii (list_ascii_of_string s).

(** [x ?? d]: the default replaces a nullish ([null] or [undefined]) value. *)
Definition nullish (x : option jsstring) (d : jsstring) : jsstring :=
  match x with
  | Some v => v
  | None => d
  end.

Infix "??" := nullish (at level 45, left associativity).

(** ECMAScript WhiteSpace and LineTerminator code points, the ones
    [String.prototype.trim] strips.  All of them lie in the Basic
    Multilingual Plane, hence are single code units. *)
Definition isWhiteSpace (c : N) : bool :=
  ((c =? 0x09) || (c =? 0x0A) || (c =? 0x0B) || (c =? 0x0C) || (c =? 0x0D)
   || (c =? 0x20) || (c =? 0xA0) || (c =? 0x1680)
   || ((0x2000 <=? c) && (c <=? 0x200A))
   || (c =? 0x2028) || (c =? 0x2029) || (c =? 0x202F) || (c =? 0x205F)
   || (c =? 0x3000) || (c =? 0xFEFF))%N.

Fixpoint trimStart (s : jsstring) : jsstring :=
  match s with
  | c :: s' => if isWhiteSpace c then trimStart s' else s
  | [] => []
  end.

Definition trimEnd (s : jsstring) : jsstring :=
  rev (trimStart (rev s)).

(** [s.trim()] *)
Definition trim (s : jsstring) : jsstring :=
  trimEnd (trimStart s).

(** JavaScript truthiness of a string: only the empty string is falsy. *)
Definition truthy (s : jsstring) : bool :=
  match s with
  | [] => false
  | _ :: _ => true
  end.

(** ** The component's state *)

(** One entry of [messages].  The TypeScript annotation restricts [type] to
    the literals ["user"], ["agent"] and ["system"]; at run time it is a
    string, and it is modelled as one, so that the restriction is a property
    of the call sites rather than of the model. *)
Record Message : Type := mkMessage {
  type : jsstring;
  text : jsstring
}.

(** A method call received by the SDK client. *)
Inductive SdkCall : Type :=
| SDK_startCall (agent : jsstring)
| SDK_stopCall
| SDK_sendUserMessage (message : jsstring).

(** The client object made by [new RetellWebClient()].  The component makes
    one per mount; the closure variable [client] of the mount effect and
    [retellWebClientRef.current] are aliases of that single object, so one
    call log ([sdkCalls] below) serves both. *)
Inductive RetellWebClient : Type := new_RetellWebClient.

Record AppState : Type := mkAppState {
  isCalling : bool;
  isAgentTalking : bool;
  messages : list Message;
  input : jsstring;
  retellWebClientRef : option RetellWebClient;   (* [None] is [null] *)
  sdkCalls : list SdkCall                        (* oldest call first *)
}.

(** The state of the first render: the [useState] and [useRef] initial
    values. *)
Definition initialState : AppState :=
  mkAppState false false [] (lit "") None [].

(** ** Callbacks as state transformers *)

(** A callback runs to completion on the single UI thread; its state setters
    take effect in program order.  A callback reads a [useRef] cell when it
    runs; a [useState] value it mentions is the one of the render that
    created the callback, and is a parameter of its definition. *)
Definition App (A : Type) : Type := AppState → A * AppState.

#[export] Instance App_ret : MRet App := λ A (a : A) st, (a, st).
#[export] Instance App_bind : MBind App :=
  λ A B (f : A → App B) (m : App A) st, let '(a, st') := m st in f a st'.

(** The state a callback leaves behind. *)
Definition exec {A} (m : App A) (st : AppState) : AppState := (m st).2.

Definition setIsCalling (b : bool) : App () := λ st,
  ((), mkAppState b (isAgentTalking st) (messages st) (input st)
         (retellWebClientRef st) (sdkCalls st)).

Definition setIsAgentTalking (b : bool) : App () := λ st,
  ((), mkAppState (isCalling st) b (messages st) (input st)
         (retellWebClientRef st) (sdkCalls st)).

(** [setMessages(f)], the functional update. *)
Definition setMessages (f : list Message → list Message) : App () := λ st,
  ((), mkAppState (isCalling st) (isAgentTalking st) (f (messages st))
         (input st) (retellWebClientRef st) (sdkCalls st)).

Definition setInput (s : jsstring) : App () := λ st,
  ((), mkAppState (isCalling st) (isAgentTalking st) (messages st) s
         (retellWebClientRef st) (sdkCalls st)).

Definition setRef (r : option RetellWebClient) : App () := λ st,
  ((), mkAppState (isCalling st) (isAgentTalking st) (messages st)
         (input st) r (sdkCalls st)).

Definition getInput : App jsstring := λ st, (input st, st).

Definition getRef : App (option RetellWebClient) := λ st,
  (retellWebClientRef st, st).

(** A method call on the client object. *)
Definition call (c : SdkCall) : App () := λ st,
  ((), mkAppState (isCalling st) (isAgentTalking st) (messages st) (input st)
         (retellWebClientRef st) (sdkCalls st ++ [c])).

Definition client_startCall (_ : RetellWebClient) (agent : jsstring) : App () :=
  call (SDK_startCall agent).
Definition client_stopCall (_ : RetellWebClient) : App () :=
  call SDK_stopCall.
Definition client_sendUserMessage (_ : RetellWebClient) (m : jsstring) : App () :=
  call (SDK_sendUserMessage m).

Definition agentId : jsstring := lit "agent_1e1cc9d0370c420aab5f869e7e".

(** [setMessages((msgs) => [...msgs, { type, text }])] *)
Definition addMessage (text : jsstring) (type : jsstring) : App () :=
  setMessages (λ msgs, msgs ++ [mkMessage type text]).

(** ** The SDK events and their handlers *)

(** The payload of an [update] event, as far as the handler looks at it.  A
    field is [None] when the key is absent from the object, [Some None] when
    the key is there with a nullish value, and [Some (Some s)] when it holds
    the string [s]. *)
Module Update.
Record t : Type := mk {
  error : option (option jsstring);
  status : option (option jsstring);
  agent_message : option (option jsstring);
  user_message : option (option jsstring)
}.
End Update.

(** ["key" in update] *)
Definition has (field : option (option jsstring)) : bool :=
  bool_decide (is_Some field).

(** [update.key] *)
Definition get (field : option (option jsstring)) : option jsstring :=
  field ≫= id.

(** [update.key === "literal"] *)
Definition strictEq (field : option (option jsstring)) (l : string) : bool :=
  bool_decide (get field = Some (lit l)).

(** [if (b) { m }] *)
Definition when (b : bool) (m : App ()) : App () :=
  if b then m else mret ().

(** The named events a client emits, each with the payload its handler
    receives ([None] is a nullish payload).  The SDK's own typings are not
    part of the repository; a payload value that ends up as the text of a
    transcript entry is taken to be a string, as the declared type of
    [messages] asks. *)
Inductive Event : Type :=
| call_started (data : option jsstring)
| call_ended (data : option jsstring)
| agent_start_talking
| agent_stop_talking
| update (u : Update.t)
| error (e : option jsstring).

Section Handlers.
(** The [client] of the mount effect, which the handlers close over. *)
Variable client : RetellWebClient.

Definition on_call_started (data : option jsstring) : App () :=
  addMessage (data ?? lit "Call started") (lit "system").

Definition on_call_ended (data : option jsstring) : App () :=
  addMessage (data ?? lit "Call ended") (lit "system");;
  setIsCalling false;;
  setIsAgentTalking false.

Definition on_agent_start_talking : App () := setIsAgentTalking true.
Definition on_agent_stop_talking : App () := setIsAgentTalking false.

Definition on_update (update : Update.t) : App () :=
  if has (Update.error update) then
    addMessage (get (Update.error update) ?? lit "Unknown error") (lit "system");;
    client_stopCall client
  else
    when (has (Update.status update)) (
      when (strictEq (Update.status update) "listening")
        (addMessage (lit "Agent is listening...") (lit "system"));;
      when (strictEq (Update.status update) "recognizing")
        (addMessage (lit "Recognizing speech...") (lit "system")));;
    when (has (Update.agent_message update))
      (addMessage (get (Update.agent_message update) ?? lit "") (lit "agent"));;
    when (has (Update.user_message update))
      (addMessage (get (Update.user_message update) ?? lit "") (lit "user")).

Definition on_error (error : option jsstring) : App () :=
  addMessage (error ?? lit "Unknown error") (lit "system");;
  client_stopCall client.

(** The handler that [client.on] registered for the event. *)
Definition handler (ev : Event) : App () :=
  match ev with
  | call_started data => on_call_started data
  | call_ended data => on_call_ended data
  | agent_start_talking => on_agent_start_talking
  | agent_stop_talking => on_agent_stop_talking
  | update u => on_update u
  | error e => on_error e
  end.
End Handlers.

(** The body of [useEffect(..., [])], run once after the first render, and
    the cleanup it returns. *)
Definition mountEffect : App () :=
  setRef (Some new_RetellWebClient).

Definition cleanupEffect : App () :=
  setRef None.

(** ** The UI callbacks *)

Definition startCall : App () :=
  client ← getRef;
  match client with
  | None => addMessage (lit "Client not initialized") (lit "system")
  | Some client =>
      setIsCalling true;;
      addMessage (lit "Calling agent...") (lit "system");;
      client_startCall client agentId
  end.

Definition stopCall : App () :=
  client ← getRef;
  match client with
  | None => addMessage (lit "Client not initialized") (lit "system")
  | Some client =>
      setIsCalling false;;
      setIsAgentTalking false;;
      client_stopCall client;;
      addMessage (lit "Call ended") (lit "system")
  end.

(** [sendMessage] as made by a render in which the text field held [input]:
    [input] is a constant of that render, not read again when the callback
    runs. *)
Definition sendMessage (input : jsstring) : App () :=
  client ← getRef;
  let message := trim input in
  match client with
  | None => addMessage (lit "Client not initialized") (lit "system")
  | Some client =>
      if negb (truthy message) then mret ()
      else
        addMessage message (lit "user");;
        client_sendUserMessage client message;;
        setInput (lit "")
  end.

(** The [sendMessage] of the render of the state it runs in: what a press on
    Send or a submit in the text field runs once the screen is up to date. *)
Definition currentSendMessage : App () :=
  input ← getInput;
  sendMessage input.

(** ** Operations of the program *)

(** Everything that runs component code after the first render: the mount
    effect and its cleanup, an SDK event reaching its handler, one of the
    three callbacks, or the text field reporting an edit
    ([onChangeText={setInput}]).  A user operation acts on the screen of the
    state it runs in.  What the SDK does inside a method call,
    including the events it emits in response, is not component code: such an
    event is an operation of its own. *)
Inductive Op : Type :=
| OpMount
| OpCleanup
| OpEvent (ev : Event)
| OpStartCall
| OpStopCall
| OpSendMessage
| OpChangeText (s : jsstring).

Definition step (op : Op) : App () :=
  match op with
  | OpMount => mountEffect
  | OpCleanup => cleanupEffect
  | OpEvent ev => handler new_RetellWebClient ev
  | OpStartCall => startCall
  | OpStopCall => stopCall
  | OpSendMessage => currentSendMessage
  | OpChangeText s => setInput s
  end.

(** The state after a sequence of operations. *)
Definition run (ops : list Op) (st : AppState) : AppState :=
  foldl (λ st op, exec (step op) st) st ops.

(** The states the component can be in. *)
Definition reachable (st : AppState) : Prop :=
  ∃ ops, st = run ops initialState.

(** ** Observations on a run *)

(** The entries a callback adds at the end of the transcript. *)
Definition appendedBy (m : App ()) (st : AppState) : list Message :=
  drop (length (messages st)) (messages (exec m st)).

(** The method calls a callback makes on the client. *)
Definition callsBy (m : App ()) (st : AppState) : list SdkCall :=
  drop (length (sdkCalls st)) (sdkCalls (exec m st)).

(** How many of the two flags differ between two states. *)
Definition flagsChanged (st st' : AppState) : nat :=
  (if bool_decide (isCalling st = isCalling st') then 0 else 1) +
  (if bool_decide (isAgentTalking st = isAgentTalking st') then 0 else 1).

(** The three kinds of entry the transcript is declared to hold. *)
Definition kinds : list jsstring := [lit "user"; lit "agent"; lit "system"].

Definition validKind (m : Message) : Prop := type m ∈ kinds.

Definition ofKind (k : string) (m : Message) : Prop := type m = lit k.

#[export] Instance ofKind_dec k m : Decision (ofKind k m).
Proof. unfold ofKind. apply _. Defined.

(** A failure signal and the error value it carries: an [error] event, or an
    [update] whose payload has the key [error]. *)
Definition failureOf (ev : Event) : option (option jsstring) :=
  match ev with
  | error e => Some e
  | update u => Update.error u
  | _ => None
  end.

(** ** Summaries used in the proofs *)

(** The entries an [update] without the key [error] adds, in order. *)
Definition updateEntries (u : Update.t) : list Message :=
  (if strictEq (Update.status u) "listening"
   then [mkMessage (lit "system") (lit "Agent is listening...")] else []) ++
  (if strictEq (Update.status u) "recognizing"
   then [mkMessage (lit "system") (lit "Recognizing speech...")] else []) ++
  (if has (Update.agent_message u)
   then [mkMessage (lit "agent") (get (Update.agent_message u) ?? lit "")] else []) ++
  (if has (Update.user_message u)
   then [mkMessage (lit "user") (get (Update.user_message u) ?? lit "")] else []).

Definition eventEntries (ev : Event) : list Message :=
  match ev with
  | call_started data => [mkMessage (lit "system") (data ?? lit "Call started")]
  | call_ended data => [mkMessage (lit "system") (data ?? lit "Call ended")]
  | agent_start_talking | agent_stop_talking => []
  | update u =>
      if has (Update.error u)
      then [mkMessage (lit "system") (get (Update.error u) ?? lit "Unknown error")]
      else updateEntries u
  | error e => [mkMessage (lit "system") (e ?? lit "Unknown error")]
  end.

Definition eventCalls (ev : Event) : list SdkCall :=
  if has (failureOf ev) then [SDK_stopCall] else [].

(** The entries and the client calls of one operation. *)
Definition opEntries (op : Op) (st : AppState) : list Message :=
  match op with
  | OpEvent ev => eventEntries ev
  | OpStartCall =>
      match retellWebClientRef st with
      | Some _ => [mkMessage (lit "system") (lit "Calling agent...")]
      | None => [mkMessage (lit "system") (lit "Client not initialized")]
      end
  | OpStopCall =>
      match retellWebClientRef st with
      | Some _ => [mkMessage (lit "system") (lit "Call ended")]
      | None => [mkMessage (lit "system") (lit "Client not initialized")]
      end
  | OpSendMessage =>
      match retellWebClientRef st with
      | Some _ =>
          if truthy (trim (input st))
          then [mkMessage (lit "user") (trim (input st))] else []
      | None => [mkMessage (lit "system") (lit "Client not initialized")]
      end
  | OpMount | OpCleanup | OpChangeText _ => []
  end.

Definition opCalls (op : Op) (st : AppState) : list SdkCall :=
  match op with
  | OpEvent ev => eventCalls ev
  | OpStartCall =>
      match retellWebClientRef st with
      | Some _ => [SDK_startCall agentId]
      | None => []
      end
  | OpStopCall =>
      match retellWebClientRef st with
      | Some _ => [SDK_stopCall]
      | None => []
      end
  | OpSendMessage =>
      match retellWebClientRef st with
      | Some _ =>
          if truthy (trim (input st))
          then [SDK_sendUserMessage (trim (input st))] else []
      | None => []
      end
  | OpMount | OpCleanup | OpChangeText _ => []
  end.

(** ** The stated properties as predicates on one input *)

(** The mounted component, idle, and the same during a call while the agent
    speaks. *)
Definition stMounted : AppState := exec mountEffect initialState.

Definition stTalking : AppState :=
  mkAppState true true [] (lit "") (Some new_RetellWebClient) [].

(** "one entry and at most one flag" for one event in one state. *)
Definition oneEntryOneFlag (ev : Event) (st : AppState) : Prop :=
  length (appendedBy (handler new_RetellWebClient ev) st) = 1 ∧
  flagsChanged st (exec (handler new_RetellWebClient ev) st) ≤ 1.

(** "a text line for the payload" for one event in one state. *)
Definition rendersLine (ev : Event) (st : AppState) : Prop :=
  1 ≤ length (appendedBy (handler new_RetellWebClient ev) st).

(** The events that put a line in the transcript. *)
Definition renders (ev : Event) : bool :=
  match ev with
  | call_started _ | call_ended _ | error _ => true
  | agent_start_talking | agent_stop_talking => false
  | update u =>
      has (Update.error u)
      || strictEq (Update.status u) "listening"
      || strictEq (Update.status u) "recognizing"
      || has (Update.agent_message u)
      || has (Update.user_message u)
  end.

(** "one agent entry with the text of [agent_message]" for one payload in one
    state: among the appended entries there is a single one of kind
    ["agent"], and the value of the field is its text. *)
Definition relaysAgentMessage (u : Update.t) (st : AppState) : Prop :=
  ∃ m,
    filter (ofKind "agent") (appendedBy (on_update new_RetellWebClient u) st) = [m] ∧
    get (Update.agent_message u) = Some (text m).

(** "one system entry with the SDK's error string, and [stopCall()]" for one
    event in one state. *)
Definition showsSuppliedError (ev : Event) (st : AppState) : Prop :=
  ∃ m,
    appendedBy (handler new_RetellWebClient ev) st = [m] ∧
    ofKind "system" m ∧
    failureOf ev = Some (Some (text m)) ∧
    callsBy (handler new_RetellWebClient ev) st = [SDK_stopCall].

(** ** The rendered screen *)

(** What the component returns for a state, as far as it depends on the
    state: the header button, one bubble per transcript entry, the
    agent-talking line, the text field and the Send button.  A handler prop
    is given as the operation it runs. *)
Inductive ButtonStyle : Type := buttonGreen | buttonRed.

Inductive MessageStyle : Type := userMessage | agentMessage | systemMessage.

Record HeaderButton : Type := mkHeaderButton {
  buttonStyle : ButtonStyle;
  buttonText : jsstring;
  onPress : Op
}.

Record Bubble : Type := mkBubble {
  key : nat;
  messageStyle : MessageStyle;
  systemMessageText : bool;     (* [msg.type === "system" && ...] *)
  messageText : jsstring
}.

Record Screen : Type := mkScreen {
  headerButton : HeaderButton;
  bubbles : list Bubble;
  agentTalkingText : option jsstring;
  value : jsstring;             (* the text field; [onChangeText={setInput}],
                                   [onSubmitEditing={sendMessage}] *)
  editable : bool;
  sendDisabled : bool           (* the Send button; [onPress={sendMessage}] *)
}.

(** The body of [messages.map((msg, i) => ...)]. *)
Definition renderMessage (i : nat) (msg : Message) : Bubble :=
  mkBubble i
    (if bool_decide (type msg = lit "user") then userMessage
     else if bool_decide (type msg = lit "agent") then agentMessage
     else systemMessage)
    (bool_decide (type msg = lit "system"))
    (text msg).

Definition render (st : AppState) : Screen :=
  mkScreen
    (if isCalling st
     then mkHeaderButton buttonRed (lit "End Call") OpStopCall
     else mkHeaderButton buttonGreen (lit "Start Call") OpStartCall)
    (imap renderMessage (messages st))
    (if isAgentTalking st then Some (lit "Agent is talking...") else None)
    (input st)
    (isCalling st)
    (negb (isCalling st)).

(** The operations the user can trigger on a screen: a press on the header
    button, a press on Send unless it is disabled, and an edit or a submit in
    the text field if it is editable. *)
Definition offered (scr : Screen) (op : Op) : Prop :=
  op = onPress (headerButton scr) ∨
  (sendDisabled scr = false ∧ op = OpSendMessage) ∨
  (editable scr = true ∧ (op = OpSendMessage ∨ ∃ s, op = OpChangeText s)).

(** The operations that need no user: the effect, its cleanup, an event. *)
Definition external (op : Op) : Prop :=
  op = OpMount ∨ op = OpCleanup ∨ ∃ ev, op = OpEvent ev.

(** The states the component reaches when the user can only do what the
    screen of the moment offers. *)
Inductive uiReachable : AppState → Prop :=
| ui_initial : uiReachable initialState
| ui_external st op :
    uiReachable st → external op → uiReachable (exec (step op) st)
| ui_user st op :
    uiReachable st → offered (render st) op → uiReachable (exec (step op) st).

(** ** Vocabulary of the further properties *)

(** A string of white space only (the empty string included). *)
Definition blank (s : jsstring) : Prop :=
  Forall (λ c, isWhiteSpace c = true) s.

(** Neither the first nor the last code unit is white space. *)
Definition trimmed (m : jsstring) : Prop :=
  ∀ c, head m = Some c ∨ last m = Some c → isWhiteSpace c = false.

Definition isSend (c : SdkCall) : Prop :=
  match c with SDK_sendUserMessage _ => True | _ => False end.

#[export] Instance isSend_dec c : Decision (isSend c).
Proof. destruct c; simpl; apply _. Defined.

(** An [update] event whose payload has the key [user_message] and not the
    key [error]. *)
Definition isUserUpdate (op : Op) : bool :=
  match op with
  | OpEvent (update u) =>
      negb (has (Update.error u)) && has (Update.user_message u)
  | _ => false
  end.

(** How many of the operations are such events. *)
Definition userUpdates (ops : list Op) : nat :=
  length (filter (λ op, isUserUpdate op = true) ops).

(** * Properties *)

(** ** Strings *)

Lemma trimStart_blank (s : jsstring) :
  Forall (λ c, isWhiteSpace c = true) s → trimStart s = [].
Proof.
  induction 1 as [|c s Hc _ IH]; simpl.
  - reflexivity.
  - now rewrite Hc.
Qed.

Lemma trimStart_nil_inv (s : jsstring) :
  trimStart s = [] → Forall (λ c, isWhiteSpace c = true) s.
Proof.
  induction s as [|c s IH]; simpl; intros H.
  - constructor.
  - destruct (isWhiteSpace c) eqn:Hc; [|discriminate].
    constructor; auto.
Qed.

(** Trimming leaves nothing exactly when every code unit is white space. *)
Lemma trim_nil_iff (s : jsstring) :
  trim s = [] ↔ Forall (λ c, isWhiteSpace c = true) s.
Proof.
  unfold trim, trimEnd. split.
  - intros H. apply trimStart_nil_inv.
    apply (f_equal (@rev N)) in H. rewrite rev_involutive in H. simpl in H.
    apply trimStart_nil_inv in H.
    destruct (trimStart s) as [|c t] eqn:Hs; [reflexivity|].
    exfalso.
    assert (Hc : isWhiteSpace c = true).
    { rewrite Forall_forall in H. apply H, list_elem_of_In. rewrite <- in_rev. now left. }
    clear H. induction s as [|d s IH]; simpl in Hs; [discriminate|].
    destruct (isWhiteSpace d) eqn:Hd; [auto|].
    injection Hs as -> _. congruence.
  - intros H. now rewrite (trimStart_blank s H).
Qed.

Lemma truthy_trim_blank (s : jsstring) :
  Forall (λ c, isWhiteSpace c = true) s → truthy (trim s) = false.
Proof. intros H. apply trim_nil_iff in H. now rewrite H. Qed.

(** ** Running callbacks *)

Lemma exec_seq (m k : App ()) st : exec (m ;; k) st = exec k (exec m st).
Proof.
  unfold exec, mbind, App_bind. destruct (m st) as [[] st']. reflexivity.
Qed.

Lemma exec_when b (m : App ()) st :
  exec (when b m) st = if b then exec m st else st.
Proof. now destruct b. Qed.

Lemma exec_addMessage t k st :
  exec (addMessage t k) st =
  mkAppState (isCalling st) (isAgentTalking st)
    (messages st ++ [mkMessage k t]) (input st)
    (retellWebClientRef st) (sdkCalls st).
Proof. reflexivity. Qed.

Lemma exec_eta st :
  mkAppState (isCalling st) (isAgentTalking st) (messages st) (input st)
    (retellWebClientRef st) (sdkCalls st) = st.
Proof. now destruct st. Qed.

Lemma appendedBy_app m st es :
  messages (exec m st) = messages st ++ es → appendedBy m st = es.
Proof. unfold appendedBy. intros ->. apply drop_app_length. Qed.

(** ** What each callback does, in one equation *)

Lemma strictEq_has field l : strictEq field l = true → has field = true.
Proof.
  unfold strictEq, has. destruct field; simpl; [reflexivity|discriminate].
Qed.

Lemma on_update_exec c u st :
  exec (on_update c u) st =
  mkAppState (isCalling st) (isAgentTalking st)
    (messages st ++ eventEntries (update u)) (input st)
    (retellWebClientRef st) (sdkCalls st ++ eventCalls (update u)).
Proof.
  unfold on_update, eventEntries, eventCalls, failureOf, updateEntries.
  destruct u as [e s a m]; simpl.
  destruct e as [e|]; simpl; [reflexivity|].
  rewrite !exec_seq, !exec_when.
  destruct (has s) eqn:Hs.
  - rewrite exec_seq, !exec_when.
    destruct (strictEq s "listening"), (strictEq s "recognizing"),
      (has a), (has m); rewrite ?exec_addMessage; simpl;
      rewrite <- ?app_assoc, ?app_nil_r, ?exec_eta; reflexivity.
  - destruct (strictEq s "listening") eqn:H1;
      [apply strictEq_has in H1; congruence|].
    destruct (strictEq s "recognizing") eqn:H2;
      [apply strictEq_has in H2; congruence|].
    destruct (has a), (has m); rewrite ?exec_addMessage; simpl;
      rewrite <- ?app_assoc, ?app_nil_r, ?exec_eta; reflexivity.
Qed.

Lemma handler_exec c ev st :
  exec (handler c ev) st =
  mkAppState
    (match ev with call_ended _ => false | _ => isCalling st end)
    (match ev with
     | call_ended _ | agent_stop_talking => false
     | agent_start_talking => true
     | _ => isAgentTalking st
     end)
    (messages st ++ eventEntries ev) (input st)
    (retellWebClientRef st) (sdkCalls st ++ eventCalls ev).
Proof.
  destruct ev as [d|d| | |u|e]; simpl handler;
    try apply on_update_exec;
    unfold eventCalls; simpl; rewrite ?app_nil_r; reflexivity.
Qed.

Lemma startCall_exec st :
  exec startCall st =
  match retellWebClientRef st with
  | Some _ =>
      mkAppState true (isAgentTalking st)
        (messages st ++ [mkMessage (lit "system") (lit "Calling agent...")])
        (input st) (retellWebClientRef st)
        (sdkCalls st ++ [SDK_startCall agentId])
  | None =>
      mkAppState (isCalling st) (isAgentTalking st)
        (messages st ++ [mkMessage (lit "system") (lit "Client not initialized")])
        (input st) None (sdkCalls st)
  end.
Proof. destruct st as [c a ms i [r|] cs]; reflexivity. Qed.

Lemma stopCall_exec st :
  exec stopCall st =
  match retellWebClientRef st with
  | Some _ =>
      mkAppState false false
        (messages st ++ [mkMessage (lit "system") (lit "Call ended")])
        (input st) (retellWebClientRef st) (sdkCalls st ++ [SDK_stopCall])
  | None =>
      mkAppState (isCalling st) (isAgentTalking st)
        (messages st ++ [mkMessage (lit "system") (lit "Client not initialized")])
        (input st) None (sdkCalls st)
  end.
Proof. destruct st as [c a ms i [r|] cs]; reflexivity. Qed.

Lemma sendMessage_exec i st :
  exec (sendMessage i) st =
  match retellWebClientRef st with
  | Some _ =>
      if truthy (trim i) then
        mkAppState (isCalling st) (isAgentTalking st)
          (messages st ++ [mkMessage (lit "user") (trim i)])
          (lit "") (retellWebClientRef st)
          (sdkCalls st ++ [SDK_sendUserMessage (trim i)])
      else st
  | None =>
      mkAppState (isCalling st) (isAgentTalking st)
        (messages st ++ [mkMessage (lit "system") (lit "Client not initialized")])
        (input st) None (sdkCalls st)
  end.
Proof.
  destruct st as [c a ms i' [r|] cs]; [|reflexivity].
  unfold sendMessage, exec, getRef, mbind, App_bind.
  simpl. destruct (truthy (trim i)); reflexivity.
Qed.

Lemma currentSendMessage_exec st :
  exec currentSendMessage st = exec (sendMessage (input st)) st.
Proof. reflexivity. Qed.

Lemma step_messages op st :
  messages (exec (step op) st) = messages st ++ opEntries op st.
Proof.
  destruct op as [| |ev| | | |s]; simpl step; simpl opEntries;
    try (simpl; now rewrite app_nil_r).
  - now rewrite handler_exec.
  - rewrite startCall_exec. now destruct (retellWebClientRef st).
  - rewrite stopCall_exec. now destruct (retellWebClientRef st).
  - rewrite currentSendMessage_exec, sendMessage_exec.
    destruct (retellWebClientRef st); [|reflexivity].
    destruct (truthy (trim (input st))); simpl; now rewrite ?app_nil_r.
Qed.

Lemma step_sdkCalls op st :
  sdkCalls (exec (step op) st) = sdkCalls st ++ opCalls op st.
Proof.
  destruct op as [| |ev| | | |s]; simpl step; simpl opCalls;
    try (simpl; now rewrite app_nil_r).
  - now rewrite handler_exec.
  - rewrite startCall_exec.
    destruct (retellWebClientRef st); simpl; now rewrite ?app_nil_r.
  - rewrite stopCall_exec.
    destruct (retellWebClientRef st); simpl; now rewrite ?app_nil_r.
  - rewrite currentSendMessage_exec, sendMessage_exec.
    destruct (retellWebClientRef st); simpl; [|now rewrite app_nil_r].
    destruct (truthy (trim (input st))); simpl; now rewrite ?app_nil_r.
Qed.

Lemma run_cons op ops st : run (op :: ops) st = run ops (exec (step op) st).
Proof. reflexivity. Qed.

Lemma step_prefix op st :
  messages st `prefix_of` messages (exec (step op) st).
Proof. rewrite step_messages. now apply prefix_app_r. Qed.

Lemma run_prefix ops st : messages st `prefix_of` messages (run ops st).
Proof.
  revert st. induction ops as [|op ops IH]; intros st.
  - reflexivity.
  - rewrite run_cons. etrans; [apply step_prefix | apply IH].
Qed.

Lemma run_snoc ops op st : run (ops ++ [op]) st = exec (step op) (run ops st).
Proof. unfold run. now rewrite foldl_app. Qed.

Lemma validKind_intro k t :
  k = lit "user" ∨ k = lit "agent" ∨ k = lit "system" → validKind (mkMessage k t).
Proof.
  unfold validKind, kinds. simpl.
  intros [-> | [-> | ->]]; repeat constructor.
Qed.

Lemma eventEntries_valid ev : Forall validKind (eventEntries ev).
Proof.
  destruct ev as [d|d| | |u|e]; simpl;
    try (repeat constructor; apply validKind_intro; auto; fail).
  destruct (has (Update.error u)).
  - repeat constructor; apply validKind_intro; auto.
  - unfold updateEntries.
    repeat (apply Forall_app; split);
      match goal with |- Forall _ (if ?b then _ else _) => destruct b end;
      repeat constructor; apply validKind_intro; auto.
Qed.

Lemma opEntries_valid op st : Forall validKind (opEntries op st).
Proof.
  destruct op as [| |ev| | | |s]; simpl; try constructor.
  - apply eventEntries_valid.
  - destruct (retellWebClientRef st);
      repeat constructor; apply validKind_intro; auto.
  - destruct (retellWebClientRef st);
      repeat constructor; apply validKind_intro; auto.
  - destruct (retellWebClientRef st); [destruct (truthy _)|];
      repeat constructor; apply validKind_intro; auto.
Qed.

Lemma flagsChanged_same st st' :
  isCalling st = isCalling st' → isAgentTalking st = isAgentTalking st' →
  flagsChanged st st' = 0.
Proof.
  intros H1 H2. unfold flagsChanged. now rewrite !bool_decide_eq_true_2.
Qed.

Lemma strictEq_listening_recognizing field :
  strictEq field "listening" = true → strictEq field "recognizing" = false.
Proof.
  unfold strictEq. intros H. apply bool_decide_eq_true in H.
  apply bool_decide_eq_false. rewrite H. intros Heq. vm_compute in Heq.
  discriminate Heq.
Qed.

Lemma filter_updateEntries k u :
  filter (ofKind k) (updateEntries u) =
  filter (ofKind k)
    (if strictEq (Update.status u) "listening"
     then [mkMessage (lit "system") (lit "Agent is listening...")] else []) ++
  filter (ofKind k)
    (if strictEq (Update.status u) "recognizing"
     then [mkMessage (lit "system") (lit "Recognizing speech...")] else []) ++
  filter (ofKind k)
    (if has (Update.agent_message u)
     then [mkMessage (lit "agent") (get (Update.agent_message u) ?? lit "")]
     else []) ++
  filter (ofKind k)
    (if has (Update.user_message u)
     then [mkMessage (lit "user") (get (Update.user_message u) ?? lit "")]
     else []).
Proof. unfold updateEntries. now rewrite !filter_app. Qed.

Lemma updateEntries_count u :
  length (updateEntries u) =
  (if strictEq (Update.status u) "listening"
      || strictEq (Update.status u) "recognizing" then 1 else 0) +
  (if has (Update.agent_message u) then 1 else 0) +
  (if has (Update.user_message u) then 1 else 0).
Proof.
  unfold updateEntries. rewrite !length_app.
  destruct (strictEq (Update.status u) "listening") eqn:Hl.
  - rewrite (strictEq_listening_recognizing _ Hl).
    destruct (has _), (has _); reflexivity.
  - destruct (strictEq _ "recognizing"), (has _), (has _); reflexivity.
Qed.

(** ** The transcript *)

(** C2.  The transcript is append-only: after any operation (an event
    handler, [startCall], [stopCall], [sendMessage], an edit of the text
    field) the old message list is a prefix of the new one, and after any
    sequence of operations every entry is still at its position with its
    kind and text. *)
Theorem transcript_append_only :
  (∀ op st, messages st `prefix_of` messages (exec (step op) st)) ∧
  (∀ ops st i m,
     messages st !! i = Some m → messages (run ops st) !! i = Some m).
Proof.
  split.
  - apply step_prefix.
  - intros ops st i m Hm.
    now apply (prefix_lookup_Some (messages st) _ i m Hm), run_prefix.
Qed.

(** C7.  Every entry an operation appends has one of the kinds ["user"],
    ["agent"], ["system"], hence so has every entry of the transcript in
    every state the component can reach. *)
Theorem appended_entries_have_declared_kind :
  (∀ op st, ∃ es,
     messages (exec (step op) st) = messages st ++ es ∧ Forall validKind es) ∧
  (∀ st, reachable st → Forall validKind (messages st)).
Proof.
  split.
  - intros op st. exists (opEntries op st).
    split; [apply step_messages | apply opEntries_valid].
  - intros st [ops ->].
    induction ops as [|op ops IH] using rev_ind.
    + constructor.
    + rewrite run_snoc, step_messages.
      apply Forall_app. split; [exact IH | apply opEntries_valid].
Qed.

(** ** Event handlers *)

(** C1, as stated, fails three ways: [agent_start_talking] appends nothing,
    [call_ended] during a call with the agent speaking clears both flags, and
    an [update] with a status, an agent message and a user message appends
    three entries. *)
Lemma one_entry_one_flag_counterexample :
  ¬ oneEntryOneFlag agent_start_talking stMounted ∧
  ¬ oneEntryOneFlag (call_ended None) stTalking ∧
  ¬ oneEntryOneFlag
      (update (Update.mk None (Some (Some (lit "listening")))
                 (Some (Some (lit "Hello"))) (Some (Some (lit "Hi")))))
      stMounted.
Proof.
  unfold oneEntryOneFlag.
  repeat split; vm_compute; intros [H1 H2]; first [discriminate | lia].
Qed.

(** C1, amended.  Every handler only appends to the transcript.
    [call_started] and [error] append one entry and change no flag;
    [call_ended] appends one entry and clears both flags;
    [agent_start_talking] and [agent_stop_talking] append nothing and set the
    agent-speaking flag only; [update] changes no flag and appends one entry
    when the payload has the key [error], and otherwise one entry for a
    status ["listening"] or ["recognizing"], one for the key [agent_message]
    and one for the key [user_message]: exactly one for a payload with one
    of the three, none for a payload with none, three at most. *)
Theorem handler_entries_and_flags c ev st :
  ∃ es,
    messages (exec (handler c ev) st) = messages st ++ es ∧
    match ev with
    | call_started _ | error _ =>
        length es = 1 ∧ flagsChanged st (exec (handler c ev) st) = 0
    | call_ended _ =>
        length es = 1 ∧
        isCalling (exec (handler c ev) st) = false ∧
        isAgentTalking (exec (handler c ev) st) = false
    | agent_start_talking =>
        es = [] ∧
        isCalling (exec (handler c ev) st) = isCalling st ∧
        isAgentTalking (exec (handler c ev) st) = true
    | agent_stop_talking =>
        es = [] ∧
        isCalling (exec (handler c ev) st) = isCalling st ∧
        isAgentTalking (exec (handler c ev) st) = false
    | update u =>
        flagsChanged st (exec (handler c ev) st) = 0 ∧
        length es =
          if has (Update.error u) then 1
          else
            (if strictEq (Update.status u) "listening"
                || strictEq (Update.status u) "recognizing" then 1 else 0) +
            (if has (Update.agent_message u) then 1 else 0) +
            (if has (Update.user_message u) then 1 else 0)
    end.
Proof.
  exists (eventEntries ev). rewrite handler_exec. split; [reflexivity|].
  destruct ev as [d|d| | |u|e]; simpl; auto using flagsChanged_same.
  split; [now apply flagsChanged_same|].
  destruct (has (Update.error u)); [reflexivity | apply updateEntries_count].
Qed.

(** C5, as stated, fails for the two talking events and for an [update]
    whose only field is a status the handler does not list. *)
Lemma renders_line_counterexample :
  ¬ rendersLine agent_start_talking stMounted ∧
  ¬ rendersLine agent_stop_talking stTalking ∧
  ¬ rendersLine
      (update (Update.mk None (Some (Some (lit "speaking"))) None None))
      stMounted.
Proof. unfold rendersLine. repeat split; vm_compute; lia. Qed.

(** C5, amended.  A handler appends at least one entry exactly for
    [call_started], [call_ended], [error], and an [update] that has the key
    [error], [agent_message] or [user_message] or the status ["listening"] or
    ["recognizing"].  The talking events and every other [update] append
    none. *)
Theorem handler_renders_line_iff c ev st :
  1 ≤ length (appendedBy (handler c ev) st) ↔ renders ev = true.
Proof.
  rewrite (appendedBy_app _ st (eventEntries ev))
    by now rewrite handler_exec.
  destruct ev as [d|d| | |u|e]; simpl; try (split; [reflexivity | lia]);
    try (split; [lia | discriminate]).
  unfold updateEntries.
  destruct (has (Update.error u)), (strictEq (Update.status u) "listening"),
    (strictEq (Update.status u) "recognizing"), (has (Update.agent_message u)),
    (has (Update.user_message u)); simpl;
    (split; [reflexivity | lia]) || (split; [lia | discriminate]).
Qed.

(** C3, as stated, fails when the payload also has the key [error] (the
    handler returns before it looks at [agent_message]) and when the value of
    [agent_message] is nullish (the entry's text is then the empty
    string). *)
Lemma agent_message_counterexample :
  (has (Update.agent_message
          (Update.mk (Some (Some (lit "boom"))) None (Some (Some (lit "Hello"))) None))
     = true ∧
   ¬ relaysAgentMessage
       (Update.mk (Some (Some (lit "boom"))) None (Some (Some (lit "Hello"))) None)
       stMounted) ∧
  (has (Update.agent_message (Update.mk None None (Some None) None)) = true ∧
   ¬ relaysAgentMessage (Update.mk None None (Some None) None) stMounted).
Proof.
  unfold relaysAgentMessage.
  repeat split; intros [m [H1 H2]]; vm_compute in H1, H2; discriminate.
Qed.

Lemma filter_agent_updateEntries u :
  filter (ofKind "agent") (updateEntries u) =
  if has (Update.agent_message u)
  then [mkMessage (lit "agent") (get (Update.agent_message u) ?? lit "")]
  else [].
Proof.
  unfold updateEntries. rewrite !filter_app.
  destruct (strictEq _ "listening"), (strictEq _ "recognizing"),
    (has (Update.agent_message u)), (has (Update.user_message u));
    reflexivity.
Qed.

(** C3, amended.  For an [update] whose payload has the key [agent_message]
    and not the key [error], the handler appends exactly one entry of kind
    ["agent"]; its text is the value of [agent_message], or the empty string
    when that value is nullish. *)
Theorem update_agent_message c u v st :
  Update.error u = None →
  Update.agent_message u = Some v →
  filter (ofKind "agent") (appendedBy (on_update c u) st) =
    [mkMessage (lit "agent") (v ?? lit "")].
Proof.
  intros He Ha.
  rewrite (appendedBy_app _ st (eventEntries (update u)))
    by now rewrite on_update_exec.
  simpl. rewrite He. simpl.
  rewrite filter_agent_updateEntries, Ha. reflexivity.
Qed.

Lemma update_agent_message_witness :
  Update.error
    (Update.mk None (Some (Some (lit "listening")))
       (Some (Some (lit "Hello"))) (Some None)) = None ∧
  filter (ofKind "agent")
    (appendedBy
       (on_update new_RetellWebClient
          (Update.mk None (Some (Some (lit "listening")))
             (Some (Some (lit "Hello"))) (Some None)))
       stTalking)
  = [mkMessage (lit "agent") (lit "Hello")].
Proof.
  split; [reflexivity|].
  apply (update_agent_message new_RetellWebClient
           (Update.mk None (Some (Some (lit "listening")))
              (Some (Some (lit "Hello"))) (Some None))
           (Some (lit "Hello")) stTalking); reflexivity.
Defined.

(** ** Failure signals *)

(** C4, as stated, fails for a failure signal whose error value is nullish:
    the text shown is the component's own ["Unknown error"]. *)
Lemma supplied_error_counterexample :
  has (failureOf (error None)) = true ∧
  ¬ showsSuppliedError (error None) stTalking.
Proof.
  split; [reflexivity|].
  intros [m (H1 & _ & H2 & _)]. vm_compute in H2. discriminate.
Qed.

(** C4, amended.  On a failure signal the handler appends exactly one system
    entry, whose text is the error string the SDK supplied, or
    ["Unknown error"] when the supplied value is nullish; it calls
    [stopCall()] once and makes no other call on the client. *)
Theorem failure_shows_error_and_stops c ev e st :
  failureOf ev = Some e →
  messages (exec (handler c ev) st) =
    messages st ++ [mkMessage (lit "system") (e ?? lit "Unknown error")] ∧
  sdkCalls (exec (handler c ev) st) = sdkCalls st ++ [SDK_stopCall].
Proof.
  intros Hf. rewrite handler_exec. simpl. unfold eventCalls. rewrite Hf.
  split; [|reflexivity].
  destruct ev as [d|d| | |u|e']; simpl in *; try discriminate.
  - now rewrite Hf.
  - congruence.
Qed.

Lemma failure_shows_error_and_stops_witness :
  failureOf (update (Update.mk (Some (Some (lit "boom"))) None None None))
    = Some (Some (lit "boom")) ∧
  messages
    (exec (handler new_RetellWebClient
             (update (Update.mk (Some (Some (lit "boom"))) None None None)))
       stTalking)
    = [mkMessage (lit "system") (lit "boom")] ∧
  sdkCalls
    (exec (handler new_RetellWebClient
             (update (Update.mk (Some (Some (lit "boom"))) None None None)))
       stTalking)
    = [SDK_stopCall].
Proof.
  split; [reflexivity|].
  apply (failure_shows_error_and_stops new_RetellWebClient
           (update (Update.mk (Some (Some (lit "boom"))) None None None))
           (Some (lit "boom")) stTalking).
  reflexivity.
Defined.

(** C9.  On a failure signal the handler leaves both flags as they were and
    appends exactly one entry, of kind ["system"]; for an [update] the
    outcome is the one of the payload stripped of [status], [agent_message]
    and [user_message], so none of these is processed. *)
Theorem failure_keeps_flags c ev e st :
  failureOf ev = Some e →
  isCalling (exec (handler c ev) st) = isCalling st ∧
  isAgentTalking (exec (handler c ev) st) = isAgentTalking st ∧
  (∃ t, messages (exec (handler c ev) st) =
        messages st ++ [mkMessage (lit "system") t]) ∧
  (∀ u, ev = update u →
        exec (handler c ev) st =
        exec (handler c (update (Update.mk (Update.error u) None None None))) st).
Proof.
  intros Hf. rewrite handler_exec.
  destruct ev as [d|d| | |u|e']; simpl in Hf; try discriminate.
  - simpl. rewrite Hf. simpl. repeat split; eauto.
    intros u' [= <-]. rewrite on_update_exec.
    unfold eventEntries, eventCalls, failureOf. simpl. now rewrite Hf.
  - simpl. repeat split; eauto. discriminate.
Qed.

Lemma failure_keeps_flags_witness :
  let ev :=
    update (Update.mk (Some (Some (lit "boom"))) (Some (Some (lit "listening")))
              (Some (Some (lit "Hello"))) (Some (Some (lit "Hi")))) in
  failureOf ev = Some (Some (lit "boom")) ∧
  isCalling (exec (handler new_RetellWebClient ev) stTalking) = true ∧
  isAgentTalking (exec (handler new_RetellWebClient ev) stTalking) = true ∧
  messages (exec (handler new_RetellWebClient ev) stTalking) =
    [mkMessage (lit "system") (lit "boom")].
Proof.
  intros ev.
  assert (Hf : failureOf ev = Some (Some (lit "boom"))) by reflexivity.
  destruct (failure_keeps_flags new_RetellWebClient ev _ stTalking Hf)
    as (H1 & H2 & _ & _).
  exact (conj Hf (conj H1 (conj H2 eq_refl))).
Defined.

(** ** Calls on the client *)

(** C6.  The calls an operation makes on the client, after those made
    before: [startCall] calls [startCall(agentId)], [stopCall] calls
    [stopCall()], [sendMessage] calls [sendUserMessage] with the trimmed
    content of the text field when that is not empty, each only when the
    client reference is set; a handler calls [stopCall()] on a failure
    signal; nothing else is called. *)
Theorem sdk_methods_called_with_stated_arguments op st :
  sdkCalls (exec (step op) st) =
  sdkCalls st ++
  match op with
  | OpStartCall =>
      match retellWebClientRef st with
      | Some _ => [SDK_startCall agentId]
      | None => []
      end
  | OpStopCall =>
      match retellWebClientRef st with
      | Some _ => [SDK_stopCall]
      | None => []
      end
  | OpSendMessage =>
      match retellWebClientRef st with
      | Some _ =>
          match trim (input st) with
          | [] => []
          | _ :: _ => [SDK_sendUserMessage (trim (input st))]
          end
      | None => []
      end
  | OpEvent ev =>
      match failureOf ev with
      | Some _ => [SDK_stopCall]
      | None => []
      end
  | OpMount | OpCleanup | OpChangeText _ => []
  end.
Proof.
  rewrite step_sdkCalls. f_equal.
  destruct op as [| |ev| | | |s]; simpl; try reflexivity.
  - unfold eventCalls. now destruct (failureOf ev).
  - destruct (retellWebClientRef st); [|reflexivity].
    now destruct (trim (input st)).
Qed.

(** ** The UI callbacks *)

(** C8.  With the client reference set and an input text that is empty or
    holds only white space, [sendMessage] changes nothing: transcript, calls
    on the client, text field and flags are as before.  The input text is
    the one the callback was made with; for the callback of an up-to-date
    screen it is the content of the text field, [input st]. *)
Theorem sendMessage_blank_input st client i :
  retellWebClientRef st = Some client →
  Forall (λ c, isWhiteSpace c = true) i →
  exec (sendMessage i) st = st.
Proof.
  intros Hc Hws. rewrite sendMessage_exec, Hc.
  now rewrite (truthy_trim_blank _ Hws).
Qed.

Lemma sendMessage_blank_input_witness :
  let st :=
    mkAppState true false
      [mkMessage (lit "system") (lit "Calling agent...")]
      [0x20; 0x09; 0xA0; 0x3000; 0x0A]%N (Some new_RetellWebClient)
      [SDK_startCall agentId] in
  retellWebClientRef st = Some new_RetellWebClient ∧
  Forall (λ c, isWhiteSpace c = true) (input st) ∧
  exec (sendMessage (input st)) st = st.
Proof.
  intros st.
  assert (H1 : retellWebClientRef st = Some new_RetellWebClient)
    by reflexivity.
  assert (H2 : Forall (λ c, isWhiteSpace c = true) (input st))
    by (repeat constructor).
  exact (conj H1 (conj H2
           (sendMessage_blank_input st new_RetellWebClient (input st) H1 H2))).
Defined.

(** C10.  [stopCall] with the client reference set clears both flags, calls
    [stopCall()] on the client and appends the one system entry
    ["Call ended"]; with the reference null it appends the one system entry
    ["Client not initialized"], calls nothing and leaves the flags. *)
Theorem stopCall_effect st :
  match retellWebClientRef st with
  | Some _ =>
      isCalling (exec stopCall st) = false ∧
      isAgentTalking (exec stopCall st) = false ∧
      sdkCalls (exec stopCall st) = sdkCalls st ++ [SDK_stopCall] ∧
      messages (exec stopCall st) =
        messages st ++ [mkMessage (lit "system") (lit "Call ended")]
  | None =>
      isCalling (exec stopCall st) = isCalling st ∧
      isAgentTalking (exec stopCall st) = isAgentTalking st ∧
      sdkCalls (exec stopCall st) = sdkCalls st ∧
      messages (exec stopCall st) =
        messages st ++ [mkMessage (lit "system") (lit "Client not initialized")]
  end.
Proof.
  rewrite stopCall_exec.
  destruct (retellWebClientRef st); simpl; auto.
Qed.

(** * Further properties *)

(** ** Trimming *)

Lemma trimStart_split (s : jsstring) :
  ∃ pre, s = pre ++ trimStart s ∧ blank pre.
Proof.
  induction s as [|c s (pre & Hs & Hpre)]; simpl.
  - exists []. split; [reflexivity | constructor].
  - destruct (isWhiteSpace c) eqn:Hc.
    + exists (c :: pre). split; [simpl; congruence | now constructor].
    + exists []. split; [reflexivity | constructor].
Qed.

Lemma trimStart_head (s : jsstring) c :
  head (trimStart s) = Some c → isWhiteSpace c = false.
Proof.
  induction s as [|d s IH]; simpl; [discriminate|].
  destruct (isWhiteSpace d) eqn:Hd; [exact IH|].
  simpl. congruence.
Qed.

Lemma last_rev (s : jsstring) : last (rev s) = head s.
Proof. destruct s as [|c s]; simpl; [reflexivity | apply last_snoc]. Qed.

Lemma trimEnd_split (s : jsstring) :
  ∃ post, s = trimEnd s ++ post ∧ blank post.
Proof.
  unfold trimEnd. destruct (trimStart_split (rev s)) as (pre & Hs & Hpre).
  exists (rev pre). split.
  - rewrite <- rev_app_distr, <- Hs. now rewrite rev_involutive.
  - now apply Forall_rev.
Qed.

Lemma trimEnd_last (s : jsstring) c :
  last (trimEnd s) = Some c → isWhiteSpace c = false.
Proof. unfold trimEnd. rewrite last_rev. apply trimStart_head. Qed.

(** [trim] cuts a blank prefix and a blank suffix and leaves a string with no
    white space at either end. *)
Lemma trim_split (s : jsstring) :
  ∃ pre post, s = pre ++ trim s ++ post ∧ blank pre ∧ blank post ∧
              trimmed (trim s).
Proof.
  unfold trim.
  destruct (trimStart_split s) as (pre & Hs & Hpre).
  destruct (trimEnd_split (trimStart s)) as (post & Ht & Hpost).
  exists pre, post. repeat split; try assumption.
  - now rewrite <- Ht.
  - intros c [Hc | Hc]; [|now apply trimEnd_last in Hc].
    apply (trimStart_head s). rewrite Ht.
    destruct (trimEnd (trimStart s)); [discriminate | exact Hc].
Qed.

Lemma truthy_trim (s : jsstring) : ¬ blank s → truthy (trim s) = true.
Proof.
  intros Hs. destruct (trim s) eqn:Ht; [|reflexivity].
  exfalso. now apply Hs, trim_nil_iff.
Qed.

(** ** [sendMessage] *)

(** X1.  With the client reference set and an input text that holds more
    than white space, [sendMessage] cuts the white space around the text and
    keeps what is between: a non-empty text with no white space at either
    end.  It appends that text as one user entry, passes the same text to
    [sendUserMessage], empties the text field and leaves the flags.  The
    input text is the one the callback was made with; for the callback of an
    up-to-date screen it is [input st]. *)
Theorem sendMessage_sends_trimmed st client i :
  retellWebClientRef st = Some client →
  ¬ blank i →
  ∃ pre m post,
    i = pre ++ m ++ post ∧ blank pre ∧ blank post ∧
    m ≠ [] ∧ trimmed m ∧
    exec (sendMessage i) st =
      mkAppState (isCalling st) (isAgentTalking st)
        (messages st ++ [mkMessage (lit "user") m]) (lit "")
        (Some client) (sdkCalls st ++ [SDK_sendUserMessage m]).
Proof.
  intros Hc Hin.
  destruct (trim_split i) as (pre & post & Hs & Hpre & Hpost & Ht).
  exists pre, (trim i), post.
  pose proof (truthy_trim _ Hin) as Htr.
  repeat split; try assumption.
  - intros Hnil. now rewrite Hnil in Htr.
  - now rewrite sendMessage_exec, Hc, Htr.
Qed.

Lemma sendMessage_sends_trimmed_witness :
  let st :=
    mkAppState true false [] ([0x20; 0x09]%N ++ lit "hi  there" ++ [0x0A]%N)
      (Some new_RetellWebClient) [] in
  ∃ pre m post,
    input st = pre ++ m ++ post ∧ blank pre ∧ blank post ∧
    m ≠ [] ∧ trimmed m ∧
    exec (sendMessage (input st)) st =
      mkAppState true false [mkMessage (lit "user") m] (lit "")
        (Some new_RetellWebClient) [SDK_sendUserMessage m].
Proof.
  intros st.
  apply (sendMessage_sends_trimmed st new_RetellWebClient (input st));
    [reflexivity|].
  intros H. apply trim_nil_iff in H. vm_compute in H. discriminate H.
Defined.

(** X2.  Submitting twice, with the client reference set.  If the screen was
    drawn again in between, so that the second callback is made with the
    content the first one left in the text field, the second changes
    nothing.  If it was not, the two runs are of the same callback, made with
    the same input text: when that text holds more than white space, it is
    appended and sent twice. *)
Theorem sendMessage_twice st client :
  retellWebClientRef st = Some client →
  exec (sendMessage (input (exec (sendMessage (input st)) st)))
    (exec (sendMessage (input st)) st)
  = exec (sendMessage (input st)) st ∧
  ∀ i, ¬ blank i →
    exec (sendMessage i) (exec (sendMessage i) st) =
      mkAppState (isCalling st) (isAgentTalking st)
        (messages st ++ [mkMessage (lit "user") (trim i);
                         mkMessage (lit "user") (trim i)])
        (lit "") (Some client)
        (sdkCalls st ++ [SDK_sendUserMessage (trim i);
                         SDK_sendUserMessage (trim i)]).
Proof.
  intros Hc. split.
  - rewrite (sendMessage_exec (input st) st), Hc.
    destruct (truthy (trim (input st))) eqn:Ht.
    + rewrite sendMessage_exec. reflexivity.
    + now rewrite sendMessage_exec, Hc, Ht.
  - intros i Hi. apply truthy_trim in Hi.
    rewrite (sendMessage_exec i st), Hc, Hi.
    rewrite sendMessage_exec. simpl. rewrite Hi, <- !app_assoc. reflexivity.
Qed.

Lemma sendMessage_twice_witness :
  let st :=
    mkAppState true false [] (lit " hello ") (Some new_RetellWebClient) [] in
  retellWebClientRef st = Some new_RetellWebClient ∧
  sdkCalls (exec (sendMessage (input (exec (sendMessage (input st)) st)))
              (exec (sendMessage (input st)) st))
    = [SDK_sendUserMessage (lit "hello")] ∧
  sdkCalls (exec (sendMessage (input st)) (exec (sendMessage (input st)) st))
    = [SDK_sendUserMessage (lit "hello"); SDK_sendUserMessage (lit "hello")].
Proof.
  intros st.
  destruct (sendMessage_twice st new_RetellWebClient eq_refl) as [H1 H2].
  split; [reflexivity|]. split.
  - rewrite H1. reflexivity.
  - rewrite (H2 (input st)); [reflexivity|].
    intros H. apply trim_nil_iff in H. vm_compute in H. discriminate H.
Defined.

(** X3.  While the client reference is null, each of [startCall],
    [stopCall] and [sendMessage] only appends the system entry
    ["Client not initialized"]: no call on the client, no flag changed, the
    text field kept, whatever it holds. *)
Theorem callbacks_without_client st op :
  retellWebClientRef st = None →
  op = OpStartCall ∨ op = OpStopCall ∨ op = OpSendMessage →
  exec (step op) st =
    mkAppState (isCalling st) (isAgentTalking st)
      (messages st ++ [mkMessage (lit "system") (lit "Client not initialized")])
      (input st) None (sdkCalls st).
Proof.
  intros Hc [-> | [-> | ->]]; simpl step.
  - now rewrite startCall_exec, Hc.
  - now rewrite stopCall_exec, Hc.
  - now rewrite currentSendMessage_exec, sendMessage_exec, Hc.
Qed.

Lemma callbacks_without_client_witness :
  exec (step OpSendMessage)
    (mkAppState false false [] (lit "hello") None []) =
  mkAppState false false
    [mkMessage (lit "system") (lit "Client not initialized")]
    (lit "hello") None [].
Proof.
  apply (callbacks_without_client
           (mkAppState false false [] (lit "hello") None []) OpSendMessage);
    [reflexivity | auto].
Defined.

(** ** Who changes what *)

Lemma step_isCalling op st :
  isCalling (exec (step op) st) =
  match op with
  | OpStartCall =>
      match retellWebClientRef st with Some _ => true | None => isCalling st end
  | OpStopCall =>
      match retellWebClientRef st with Some _ => false | None => isCalling st end
  | OpEvent (call_ended _) => false
  | _ => isCalling st
  end.
Proof.
  destruct op as [| |ev| | | |s]; simpl step; try reflexivity.
  - rewrite handler_exec. now destruct ev.
  - rewrite startCall_exec. now destruct (retellWebClientRef st).
  - rewrite stopCall_exec. now destruct (retellWebClientRef st).
  - rewrite currentSendMessage_exec, sendMessage_exec.
    destruct (retellWebClientRef st); [|reflexivity].
    now destruct (truthy _).
Qed.

Lemma step_isAgentTalking op st :
  isAgentTalking (exec (step op) st) =
  match op with
  | OpStopCall =>
      match retellWebClientRef st with
      | Some _ => false
      | None => isAgentTalking st
      end
  | OpEvent (call_ended _) | OpEvent agent_stop_talking => false
  | OpEvent agent_start_talking => true
  | _ => isAgentTalking st
  end.
Proof.
  destruct op as [| |ev| | | |s]; simpl step; try reflexivity.
  - rewrite handler_exec. now destruct ev.
  - rewrite startCall_exec. now destruct (retellWebClientRef st).
  - rewrite stopCall_exec. now destruct (retellWebClientRef st).
  - rewrite currentSendMessage_exec, sendMessage_exec.
    destruct (retellWebClientRef st); [|reflexivity].
    now destruct (truthy _).
Qed.

Lemma step_input op st :
  input (exec (step op) st) =
  match op with
  | OpChangeText s => s
  | OpSendMessage =>
      match retellWebClientRef st with
      | Some _ => if truthy (trim (input st)) then lit "" else input st
      | None => input st
      end
  | _ => input st
  end.
Proof.
  destruct op as [| |ev| | | |s]; simpl step; try reflexivity.
  - now rewrite handler_exec.
  - rewrite startCall_exec. now destruct (retellWebClientRef st).
  - rewrite stopCall_exec. now destruct (retellWebClientRef st).
  - rewrite currentSendMessage_exec, sendMessage_exec.
    destruct (retellWebClientRef st); [|reflexivity].
    now destruct (truthy _).
Qed.

Lemma step_ref op st :
  retellWebClientRef (exec (step op) st) =
  match op with
  | OpMount => Some new_RetellWebClient
  | OpCleanup => None
  | _ => retellWebClientRef st
  end.
Proof.
  destruct op as [| |ev| | | |s]; simpl step; try reflexivity.
  - now rewrite handler_exec.
  - rewrite startCall_exec. now destruct (retellWebClientRef st) eqn:E.
  - rewrite stopCall_exec. now destruct (retellWebClientRef st) eqn:E.
  - rewrite currentSendMessage_exec, sendMessage_exec.
    destruct (retellWebClientRef st) eqn:E; [|reflexivity].
    now destruct (truthy _).
Qed.

(** X4.  What causes a change.  The call-active flag goes from false to true
    only in [startCall] with the client reference set; the agent-speaking
    flag goes from false to true only on [agent_start_talking]; the content
    of the text field changes only by an edit or by a [sendMessage], which
    empties it; the client reference changes only in the mount effect and
    its cleanup.  In particular no SDK event touches the text being typed or
    starts a call. *)
Theorem causes_of_change op st :
  (isCalling st = false → isCalling (exec (step op) st) = true →
   op = OpStartCall ∧ is_Some (retellWebClientRef st)) ∧
  (isAgentTalking st = false → isAgentTalking (exec (step op) st) = true →
   op = OpEvent agent_start_talking) ∧
  (input (exec (step op) st) ≠ input st →
   (∃ s, op = OpChangeText s) ∨
   (op = OpSendMessage ∧ input (exec (step op) st) = lit "")) ∧
  (retellWebClientRef (exec (step op) st) ≠ retellWebClientRef st →
   op = OpMount ∨ op = OpCleanup).
Proof.
  rewrite step_isCalling, step_isAgentTalking, step_input, step_ref.
  split; [|split; [|split]].
  - intros H0 H1. destruct op as [| |[]| | | |]; try congruence;
      destruct (retellWebClientRef st); try congruence; eauto.
  - intros H0 H1. destruct op as [| |[]| | | |]; try congruence.
    destruct (retellWebClientRef st); congruence.
  - intros Hne. destruct op as [| |ev| | | |s]; try congruence; [|eauto].
    right. split; [reflexivity|].
    destruct (retellWebClientRef st); [|congruence].
    destruct (truthy _); [reflexivity | congruence].
  - intros Hne. destruct op; auto; congruence.
Qed.

(** ** Invariants of the call log *)

Lemma reachable_step op st : reachable st → reachable (exec (step op) st).
Proof. intros [ops ->]. exists (ops ++ [op]). now rewrite run_snoc. Qed.

Lemma reachable_ind' (P : AppState → Prop) :
  P initialState →
  (∀ op st, reachable st → P st → P (exec (step op) st)) →
  ∀ st, reachable st → P st.
Proof.
  intros H0 Hstep st [ops ->].
  induction ops as [|op ops IH] using rev_ind; [exact H0|].
  rewrite run_snoc. apply Hstep; [now exists ops | exact IH].
Qed.

(** The only call with a text that an operation makes is the one of
    [sendMessage], with the trimmed content of the text field. *)
Lemma opCalls_send op st c :
  c ∈ opCalls op st → isSend c →
  op = OpSendMessage ∧ c = SDK_sendUserMessage (trim (input st)) ∧
  truthy (trim (input st)) = true.
Proof.
  destruct op as [| |ev| | | |s]; simpl; try (intros H; inversion H; fail).
  - unfold eventCalls. destruct (has _); intros H; inversion H; subst.
    + contradiction.
    + match goal with H : _ ∈ [] |- _ => inversion H end.
  - destruct (retellWebClientRef st); intros H; inversion H; subst.
    + contradiction.
    + match goal with H : _ ∈ [] |- _ => inversion H end.
  - destruct (retellWebClientRef st); intros H; inversion H; subst.
    + contradiction.
    + match goal with H : _ ∈ [] |- _ => inversion H end.
  - destruct (retellWebClientRef st); [|intros H; inversion H].
    destruct (truthy (trim (input st))) eqn:Ht; intros H; inversion H; subst.
    + auto.
    + match goal with H : _ ∈ [] |- _ => inversion H end.
Qed.

Lemma calling_startCall_step op st :
  (isCalling st = true → SDK_startCall agentId ∈ sdkCalls st) →
  isCalling (exec (step op) st) = true →
  SDK_startCall agentId ∈ sdkCalls (exec (step op) st).
Proof.
  intros IH. rewrite step_isCalling, step_sdkCalls, elem_of_app.
  destruct op as [| |[]| | | |]; try (intros H; left; now apply IH);
    try discriminate.
  - simpl. destruct (retellWebClientRef st).
    + intros _. right. constructor.
    + intros H. left. now apply IH.
  - simpl. destruct (retellWebClientRef st); [discriminate|].
    intros H. left. now apply IH.
Qed.

Lemma calling_startCall st :
  reachable st → isCalling st = true → SDK_startCall agentId ∈ sdkCalls st.
Proof.
  intros Hr. induction Hr as [|op st _ IH] using reachable_ind'.
  - discriminate.
  - now apply calling_startCall_step.
Qed.

(** X5.  In every state the component can reach, the call-active flag is set
    only if [startCall] was called on the client, with the configured agent
    id. *)
Theorem calling_implies_startCall_issued st :
  reachable st → isCalling st = true →
  SDK_startCall agentId ∈ sdkCalls st.
Proof. apply calling_startCall. Qed.

Lemma calling_implies_startCall_issued_witness :
  let st := run [OpMount; OpStartCall; OpEvent (call_started None)] initialState in
  reachable st ∧ isCalling st = true ∧ SDK_startCall agentId ∈ sdkCalls st.
Proof.
  intros st.
  assert (Hr : reachable st) by now eexists.
  assert (Hc : isCalling st = true) by reflexivity.
  exact (conj Hr (conj Hc (calling_implies_startCall_issued st Hr Hc))).
Defined.

(** X6.  Every text the component has passed to [sendUserMessage] is in the
    transcript as a user entry, is not empty, and has no white space at
    either end. *)
Theorem sent_text_is_shown st m :
  reachable st → SDK_sendUserMessage m ∈ sdkCalls st →
  mkMessage (lit "user") m ∈ messages st ∧ m ≠ [] ∧ trimmed m.
Proof.
  intros Hr. induction Hr as [|op st _ IH] using reachable_ind'.
  - intros H. inversion H.
  - rewrite step_sdkCalls, step_messages, elem_of_app. intros [H | H].
    + destruct (IH H) as (H1 & H2 & H3). repeat split; auto.
      apply elem_of_app. now left.
    + destruct (opCalls_send _ _ _ H I) as (-> & [= ->] & Ht).
      destruct (trim_split (input st)) as (_ & _ & _ & _ & _ & Htr).
      split; [|split; [|exact Htr]].
      * apply elem_of_app. right. simpl in *.
        destruct (retellWebClientRef st); [|inversion H].
        rewrite Ht. constructor.
      * intros Hnil. now rewrite Hnil in Ht.
Qed.

Lemma sent_text_is_shown_witness :
  let st :=
    run [OpMount; OpStartCall; OpChangeText (lit "  hi "); OpSendMessage]
      initialState in
  reachable st ∧ SDK_sendUserMessage (lit "hi") ∈ sdkCalls st ∧
  mkMessage (lit "user") (lit "hi") ∈ messages st ∧
  lit "hi" ≠ [] ∧ trimmed (lit "hi").
Proof.
  intros st.
  assert (Hr : reachable st) by now eexists.
  assert (Hs : SDK_sendUserMessage (lit "hi") ∈ sdkCalls st)
    by (vm_compute; repeat constructor).
  exact (conj Hr (conj Hs (sent_text_is_shown st (lit "hi") Hr Hs))).
Defined.

Lemma userUpdates_one op : userUpdates [op] = if isUserUpdate op then 1 else 0.
Proof.
  unfold userUpdates. rewrite filter_cons, filter_nil. cbv beta.
  destruct (isUserUpdate op); reflexivity.
Qed.

Lemma opEntries_user_count op st :
  length (filter (ofKind "user") (opEntries op st)) =
  length (filter isSend (opCalls op st)) + userUpdates [op].
Proof.
  rewrite userUpdates_one.
  destruct op as [| |ev| | | |s]; simpl; try reflexivity.
  - destruct ev as [d|d| | |u|e]; try reflexivity.
    unfold eventCalls. simpl.
    destruct (has (Update.error u)); [reflexivity|].
    rewrite filter_updateEntries.
    destruct (strictEq _ "listening"), (strictEq _ "recognizing"),
      (has (Update.agent_message u)), (has (Update.user_message u));
      reflexivity.
  - now destruct (retellWebClientRef st).
  - now destruct (retellWebClientRef st).
  - destruct (retellWebClientRef st); [|reflexivity].
    now destruct (truthy _).
Qed.

(** X7.  The user entries of the transcript are accounted for exactly: a
    sequence of operations adds one user entry for each [sendUserMessage]
    call it makes and one for each [update] event in it whose payload has
    the key [user_message] and not the key [error], and no other.  From the
    first render on, the number of user entries is the number of
    [sendUserMessage] calls plus the number of such updates. *)
Theorem user_entries_count ops st :
  length (filter (ofKind "user") (messages (run ops st))) +
  length (filter isSend (sdkCalls st)) =
  length (filter (ofKind "user") (messages st)) +
  length (filter isSend (sdkCalls (run ops st))) + userUpdates ops.
Proof.
  revert st. induction ops as [|op ops IH]; intros st.
  - unfold userUpdates. simpl. lia.
  - rewrite run_cons. specialize (IH (exec (step op) st)).
    rewrite step_messages, step_sdkCalls, !filter_app, !length_app in IH.
    pose proof (opEntries_user_count op st) as Hop.
    assert (Hcons : userUpdates (op :: ops) = userUpdates [op] + userUpdates ops).
    { unfold userUpdates. change (op :: ops) with ([op] ++ ops).
      now rewrite filter_app, length_app. }
    lia.
Qed.

(** ** The screen *)

Lemma uiReachable_reachable st : uiReachable st → reachable st.
Proof.
  induction 1 as [|st op _ IH _|st op _ IH _].
  - now exists [].
  - now apply reachable_step.
  - now apply reachable_step.
Qed.

(** The screen lets the user send only during a call. *)
Lemma offered_send st : offered (render st) OpSendMessage → isCalling st = true.
Proof.
  unfold offered, render. simpl.
  intros [H | [[H _] | [H _]]].
  - destruct (isCalling st); discriminate.
  - now destruct (isCalling st).
  - exact H.
Qed.

(** X8.  When the user can only do what the screen offers, the component
    never calls [sendUserMessage] before it has called [startCall]: ahead of
    each [sendUserMessage] in the list of calls there is a
    [startCall(agentId)]. *)
Theorem no_send_before_startCall st i m :
  uiReachable st →
  sdkCalls st !! i = Some (SDK_sendUserMessage m) →
  ∃ j, j < i ∧ sdkCalls st !! j = Some (SDK_startCall agentId).
Proof.
  intros Hr. revert i m.
  assert (Hstep : ∀ st op, uiReachable st →
            (op = OpSendMessage → isCalling st = true) →
            (∀ i m, sdkCalls st !! i = Some (SDK_sendUserMessage m) →
                    ∃ j, j < i ∧ sdkCalls st !! j = Some (SDK_startCall agentId)) →
            ∀ i m, sdkCalls (exec (step op) st) !! i = Some (SDK_sendUserMessage m) →
                   ∃ j, j < i ∧
                        sdkCalls (exec (step op) st) !! j = Some (SDK_startCall agentId)).
  { clear. intros st op Hr Hgate IH i m. rewrite step_sdkCalls.
    intros Hi. apply lookup_app_Some in Hi as [Hi | [Hlen Hi]].
    - destruct (IH _ _ Hi) as (j & Hj & Hs). exists j.
      split; [exact Hj | now apply lookup_app_l_Some].
    - apply list_elem_of_lookup_2 in Hi.
      destruct (opCalls_send _ _ _ Hi I) as (-> & _ & _).
      pose proof (calling_startCall st (uiReachable_reachable _ Hr)
                    (Hgate eq_refl)) as Hin.
      apply list_elem_of_lookup_1 in Hin as [j Hj].
      exists j. split; [|now apply lookup_app_l_Some].
      apply lookup_lt_Some in Hj. lia. }
  induction Hr as [|st op Hr IH Hext|st op Hr IH Hoff]; intros i m.
  - intros H. discriminate H.
  - apply Hstep; [exact Hr | | exact IH].
    intros ->. destruct Hext as [H | [H | [ev H]]]; discriminate H.
  - apply Hstep; [exact Hr | | exact IH].
    intros ->. now apply offered_send.
Qed.

Lemma no_send_before_startCall_witness :
  let st :=
    exec (step OpSendMessage)
      (exec (step (OpChangeText (lit "hi")))
         (exec (step OpStartCall) (exec (step OpMount) initialState))) in
  uiReachable st ∧
  sdkCalls st !! 1 = Some (SDK_sendUserMessage (lit "hi")) ∧
  ∃ j, j < 1 ∧ sdkCalls st !! j = Some (SDK_startCall agentId).
Proof.
  intros st.
  assert (Hr : uiReachable st).
  { apply ui_user; [apply ui_user; [apply ui_user;
      [apply ui_external; [apply ui_initial | now left] | now left]|]|].
    - right. right. split; [reflexivity | right; now eexists].
    - right. left. split; reflexivity. }
  assert (Hs : sdkCalls st !! 1 = Some (SDK_sendUserMessage (lit "hi")))
    by reflexivity.
  exact (conj Hr (conj Hs (no_send_before_startCall st 1 (lit "hi") Hr Hs))).
Defined.

(** X9.  With the client reference set, a press on the header button
    toggles the call: it flips the call-active flag, makes the one matching
    call on the client ([startCall(agentId)] when idle, [stopCall()] during a
    call), and the button then shows the other label and runs the other
    callback. *)
Theorem header_button_toggles st client :
  retellWebClientRef st = Some client →
  isCalling (exec (step (onPress (headerButton (render st)))) st) =
    negb (isCalling st) ∧
  sdkCalls (exec (step (onPress (headerButton (render st)))) st) =
    sdkCalls st ++
    [if isCalling st then SDK_stopCall else SDK_startCall agentId] ∧
  headerButton (render (exec (step (onPress (headerButton (render st)))) st)) =
    (if isCalling st
     then mkHeaderButton buttonGreen (lit "Start Call") OpStartCall
     else mkHeaderButton buttonRed (lit "End Call") OpStopCall).
Proof.
  intros Hc. unfold render. simpl.
  destruct (isCalling st) eqn:Hi; simpl.
  - rewrite stopCall_exec, Hc. auto.
  - rewrite startCall_exec, Hc. auto.
Qed.

Lemma header_button_toggles_witness :
  let st := exec (step OpMount) initialState in
  retellWebClientRef st = Some new_RetellWebClient ∧
  isCalling (exec (step (onPress (headerButton (render st)))) st) = true ∧
  sdkCalls (exec (step (onPress (headerButton (render st)))) st) =
    [SDK_startCall agentId].
Proof.
  intros st.
  destruct (header_button_toggles st new_RetellWebClient eq_refl)
    as (H1 & H2 & _).
  exact (conj eq_refl (conj H1 H2)).
Defined.

(** X10.  After the call ends, by [stopCall] with the client reference set
    or by a [call_ended] event, the screen shows the green Start Call
    button and no agent-talking line, the text field keeps its content but
    is locked and Send is disabled: the one thing the user can do is start a
    call. *)
Theorem screen_after_call_end st op :
  (op = OpStopCall ∧ is_Some (retellWebClientRef st)) ∨
  (∃ data, op = OpEvent (call_ended data)) →
  headerButton (render (exec (step op) st)) =
    mkHeaderButton buttonGreen (lit "Start Call") OpStartCall ∧
  agentTalkingText (render (exec (step op) st)) = None ∧
  value (render (exec (step op) st)) = input st ∧
  editable (render (exec (step op) st)) = false ∧
  sendDisabled (render (exec (step op) st)) = true ∧
  ∀ op', offered (render (exec (step op) st)) op' → op' = OpStartCall.
Proof.
  intros H.
  assert (Hc : isCalling (exec (step op) st) = false).
  { rewrite step_isCalling. now destruct H as [[-> [c ->]] | [d ->]]. }
  assert (Ha : isAgentTalking (exec (step op) st) = false).
  { rewrite step_isAgentTalking. now destruct H as [[-> [c ->]] | [d ->]]. }
  assert (Hi : input (exec (step op) st) = input st).
  { rewrite step_input. now destruct H as [[-> _] | [d ->]]. }
  unfold offered, render. simpl. rewrite Hc, Ha, Hi. simpl.
  repeat (split; [reflexivity|]).
  intros op' [-> | [[Hf _] | [Hf _]]]; [reflexivity | discriminate..].
Qed.

Lemma screen_after_call_end_witness :
  let st :=
    mkAppState true true [] (lit "half typed") (Some new_RetellWebClient) [] in
  headerButton (render (exec (step (OpEvent (call_ended None))) st)) =
    mkHeaderButton buttonGreen (lit "Start Call") OpStartCall ∧
  value (render (exec (step (OpEvent (call_ended None))) st)) = lit "half typed" ∧
  editable (render (exec (step (OpEvent (call_ended None))) st)) = false.
Proof.
  intros st.
  destruct (screen_after_call_end st (OpEvent (call_ended None)))
    as (H1 & _ & H3 & H4 & _); [right; now eexists|].
  exact (conj H1 (conj H3 H4)).
Defined.

Lemma reachable_validKind st : reachable st → Forall validKind (messages st).
Proof.
  intros Hr. induction Hr as [|op st _ IH] using reachable_ind'.
  - constructor.
  - rewrite step_messages. apply Forall_app.
    split; [exact IH | apply opEntries_valid].
Qed.

(** X11.  In every state the component can reach, the transcript is drawn
    one bubble per entry, in order, keyed by position and with the entry's
    text; a user entry gets the user style, an agent entry the agent style,
    and the system style, which is the fall-through of the style choice,
    goes to system entries only, together with the system text style. *)
Theorem bubbles_match_transcript st :
  reachable st →
  length (bubbles (render st)) = length (messages st) ∧
  ∀ i b, bubbles (render st) !! i = Some b →
    ∃ m, messages st !! i = Some m ∧ key b = i ∧ messageText b = text m ∧
      ((type m = lit "user" ∧ messageStyle b = userMessage ∧
        systemMessageText b = false) ∨
       (type m = lit "agent" ∧ messageStyle b = agentMessage ∧
        systemMessageText b = false) ∨
       (type m = lit "system" ∧ messageStyle b = systemMessage ∧
        systemMessageText b = true)).
Proof.
  intros Hr. apply reachable_validKind in Hr. unfold render. simpl. split.
  - apply length_imap.
  - intros i b. rewrite list_lookup_imap.
    destruct (messages st !! i) as [m|] eqn:Hm; [|discriminate].
    intros [= <-]. exists m. repeat split.
    rewrite Forall_forall in Hr.
    specialize (Hr m (list_elem_of_lookup_2 _ _ _ Hm)).
    unfold validKind, kinds in Hr. destruct m as [k t]. simpl in *.
    apply elem_of_cons in Hr as [-> | Hr]; [left; now vm_compute|].
    apply elem_of_cons in Hr as [-> | Hr]; [right; left; now vm_compute|].
    apply list_elem_of_singleton in Hr as ->. right; right. now vm_compute.
Qed.

Lemma bubbles_match_transcript_witness :
  let st :=
    run [OpMount; OpStartCall;
         OpEvent (update (Update.mk None None (Some (Some (lit "Hello"))) None))]
      initialState in
  reachable st ∧ length (bubbles (render st)) = 2.
Proof.
  intros st.
  assert (Hr : reachable st) by now eexists.
  destruct (bubbles_match_transcript st Hr) as [Hlen _].
  exact (conj Hr Hlen).
Defined.

(** ** The [update] handler *)


(** X12.  Whatever the payload, an [update] appends at most one system
    entry, at most one agent entry and at most one user entry, in this
    order. *)
Theorem update_entries_in_order c u st :
  ∃ es,
    messages (exec (on_update c u) st) = messages st ++ es ∧
    es = filter (ofKind "system") es ++ filter (ofKind "agent") es ++
         filter (ofKind "user") es ∧
    length (filter (ofKind "system") es) ≤ 1 ∧
    length (filter (ofKind "agent") es) ≤ 1 ∧
    length (filter (ofKind "user") es) ≤ 1.
Proof.
  exists (eventEntries (update u)). rewrite on_update_exec.
  split; [reflexivity|]. simpl.
  destruct (has (Update.error u)); [vm_compute; auto|].
  unfold updateEntries.
  destruct (strictEq (Update.status u) "listening") eqn:Hl.
  - rewrite (strictEq_listening_recognizing _ Hl).
    destruct (has (Update.agent_message u)), (has (Update.user_message u));
      vm_compute; auto.
  - destruct (strictEq (Update.status u) "recognizing"),
      (has (Update.agent_message u)), (has (Update.user_message u));
      vm_compute; auto.
Qed.


(** X13.  For an [update] whose payload has the key [user_message] and not
    the key [error], the handler appends exactly one entry of kind
    ["user"]; its text is the value of [user_message], or the empty string
    when that value is nullish. *)
Theorem update_user_message c u v st :
  Update.error u = None →
  Update.user_message u = Some v →
  filter (ofKind "user") (appendedBy (on_update c u) st) =
    [mkMessage (lit "user") (v ?? lit "")].
Proof.
  intros He Hu.
  rewrite (appendedBy_app _ st (eventEntries (update u)))
    by now rewrite on_update_exec.
  simpl. rewrite He. simpl. rewrite filter_updateEntries, Hu.
  destruct (strictEq _ "listening"), (strictEq _ "recognizing"),
    (has (Update.agent_message u)); reflexivity.
Qed.

Lemma update_user_message_witness :
  let u := Update.mk None None (Some (Some (lit "Hello"))) (Some (Some (lit "Hi"))) in
  Update.error u = None ∧
  filter (ofKind "user") (appendedBy (on_update new_RetellWebClient u) stTalking) =
    [mkMessage (lit "user") (lit "Hi")].
Proof.
  intros u. split; [reflexivity|].
  apply (update_user_message new_RetellWebClient u (Some (lit "Hi")) stTalking);
    reflexivity.
Defined.

(** X14.  For an [update] without the key [error], the system entries
    appended depend on the status alone: ["Agent is listening..."] for the
    status ["listening"], ["Recognizing speech..."] for ["recognizing"], and
    none for any other status, a nullish one, or no status at all. *)
Theorem update_status_entry c u st :
  Update.error u = None →
  filter (ofKind "system") (appendedBy (on_update c u) st) =
  match get (Update.status u) with
  | Some s =>
      if bool_decide (s = lit "listening")
      then [mkMessage (lit "system") (lit "Agent is listening...")]
      else if bool_decide (s = lit "recognizing")
      then [mkMessage (lit "system") (lit "Recognizing speech...")]
      else []
  | None => []
  end.
Proof.
  intros He.
  rewrite (appendedBy_app _ st (eventEntries (update u)))
    by now rewrite on_update_exec.
  simpl. rewrite He. simpl. rewrite filter_updateEntries.
  assert (Hrest :
    filter (ofKind "system")
      (if has (Update.agent_message u)
       then [mkMessage (lit "agent") (get (Update.agent_message u) ?? lit "")]
       else []) ++
    filter (ofKind "system")
      (if has (Update.user_message u)
       then [mkMessage (lit "user") (get (Update.user_message u) ?? lit "")]
       else []) = []).
  { destruct (has _), (has _); reflexivity. }
  rewrite Hrest, app_nil_r. clear Hrest.
  pose proof (strictEq_listening_recognizing (Update.status u)) as Hx.
  unfold strictEq in *.
  destruct (get (Update.status u)) as [s|]; [|reflexivity].
  destruct (decide (s = lit "listening")) as [-> | Hl].
  - rewrite Hx by now apply bool_decide_eq_true. reflexivity.
  - rewrite (bool_decide_eq_false_2 (Some s = _)) by congruence.
    rewrite (bool_decide_eq_false_2 (s = lit "listening")) by exact Hl.
    destruct (decide (s = lit "recognizing")) as [-> | Hr].
    + reflexivity.
    + rewrite (bool_decide_eq_false_2 (Some s = _)) by congruence.
      now rewrite (bool_decide_eq_false_2 (s = lit "recognizing")).
Qed.

Lemma update_status_entry_witness :
  let u := Update.mk None (Some (Some (lit "recognizing"))) None (Some None) in
  Update.error u = None ∧
  filter (ofKind "system") (appendedBy (on_update new_RetellWebClient u) stMounted) =
    [mkMessage (lit "system") (lit "Recognizing speech...")].
Proof.
  intros u. split; [reflexivity|].
  apply (update_status_entry new_RetellWebClient u stMounted). reflexivity.
Defined.

(** ** Composition *)

(** X15.  An SDK event and an edit of the text field do not interfere: in
    either order they leave the same state, so an event that arrives while
    the user types loses nothing and is itself unaffected. *)
Theorem event_commutes_with_edit ev s st :
  run [OpEvent ev; OpChangeText s] st = run [OpChangeText s; OpEvent ev] st.
Proof.
  unfold run. simpl. rewrite !handler_exec. reflexivity.
Qed.

(** X16.  [startCall] with the client reference set raises the call-active
    flag, appends the one system entry ["Calling agent..."] and makes the one
    call [startCall(agentId)]; it leaves the agent-speaking flag, the text
    field and the reference.  It does not look at the call-active flag: run
    during a call, it calls [startCall(agentId)] again. *)
Theorem startCall_effect st client :
  retellWebClientRef st = Some client →
  exec startCall st =
    mkAppState true (isAgentTalking st)
      (messages st ++ [mkMessage (lit "system") (lit "Calling agent...")])
      (input st) (Some client) (sdkCalls st ++ [SDK_startCall agentId]).
Proof. intros Hc. now rewrite startCall_exec, Hc. Qed.

Lemma startCall_effect_witness :
  let st :=
    mkAppState true true [] (lit "x") (Some new_RetellWebClient)
      [SDK_startCall agentId] in
  retellWebClientRef st = Some new_RetellWebClient ∧
  sdkCalls (exec startCall st) = [SDK_startCall agentId; SDK_startCall agentId].
Proof.
  intros st. split; [reflexivity|].
  rewrite (startCall_effect st new_RetellWebClient eq_refl). reflexivity.
Defined.
